(** * Wireless sensor network: the power-coefficient matrix of [wsn.py]

    A shallow embedding of the classes [Node] and [WSN] of [wsn.py] and of
    the few NumPy and Python list primitives they call, followed by the
    properties of the power matrix under construction, [add_sensor] and
    [remove_sensor].

    Floating point is kept abstract: the development is parametric in a
    carrier [F] with the arithmetic the program uses ([+], [-], [*],
    [** 2], [np.sqrt], [**]).  Every statement is therefore about which
    computed value sits in which slot, and holds for any arithmetic; the
    concrete runs instantiate [F] with [Z] on inputs where integer and
    IEEE double arithmetic agree exactly (3-4-5 triangles, exponent 1). *)

From Stdlib Require Import ZArith Lia.
From stdpp Require Import base option list.

Local Open Scope nat_scope.

(** ** Scalars *)

(** The arithmetic of the program.  [fsquare x] is [x ** 2], [fsqrt] is
    [np.sqrt], [fpow x y] is [x ** y]. *)
Class Float (F : Type) := {
  zero : F;
  fadd : F → F → F;
  fsub : F → F → F;
  fmul : F → F → F;
  fsquare : F → F;
  fsqrt : F → F;
  fpow : F → F → F
}.

(** The one arithmetic law used below: [a - b] and [b - a] have the same
    square (in IEEE arithmetic they are exact negations of each other). *)
Class FloatLaws (F : Type) `{Float F} : Prop := {
  fsquare_fsub_swap : ∀ a b : F, fsquare (fsub a b) = fsquare (fsub b a)
}.

(** Integer arithmetic, used to run the model on concrete networks. *)
#[export] Instance Z_Float : Float Z := {|
  zero := 0%Z;
  fadd := Z.add;
  fsub := Z.sub;
  fmul := Z.mul;
  fsquare := λ a, (a ^ 2)%Z;
  fsqrt := Z.sqrt;
  fpow := Z.pow
|}.

(** ** Exceptions and outcomes *)

Inductive exn := IndexError | ValueError.

(** A method call either returns or raises; in both cases it leaves the
    object in some state, since the methods mutate [self] step by step. *)
Inductive outcome (S : Type) :=
  | Returns (s : S)
  | Raises (e : exn) (s : S).
Arguments Returns {S} s.
Arguments Raises {S} e s.

Definition state_of {S : Type} (o : outcome S) : S :=
  match o with Returns s => s | Raises _ s => s end.

Definition returns {S : Type} (o : outcome S) : bool :=
  match o with Returns _ => true | Raises _ _ => false end.

(** ** Python and NumPy primitives *)

(** Index normalisation shared by [del l[idx]] and [np.delete]: an index
    in [-n, n) is accepted, a negative one counts from the end. *)
Definition norm_index (idx : Z) (n : nat) : option nat :=
  if decide (- Z.of_nat n ≤ idx < Z.of_nat n)%Z
  then Some (Z.to_nat (if decide (idx < 0)%Z then idx + Z.of_nat n else idx)%Z)
  else None.

(** [del l[idx]]; [None] stands for [IndexError]. *)
Definition list_del {A : Type} (l : list A) (idx : Z) : option (list A) :=
  k ← norm_index idx (length l); Some (delete k l).

(** [itertools.combinations(l, r=2)], in its lexicographic order. *)
Fixpoint combinations2 {A : Type} (l : list A) : list (A * A) :=
  match l with
  | [] => []
  | a :: l' => (pair a <$> l') ++ combinations2 l'
  end.

Section Ndarray.
Context {F : Type} `{Float F}.

(** A two-dimensional array of shape [(nrows, ncols)].  The column count
    is stored, as NumPy does: an array with no rows still has one. *)
Record ndarray := { ncols : nat; rows : list (list F) }.

Definition nrows (m : ndarray) : nat := length (rows m).

(** Every row has [ncols] entries. *)
Definition wf (m : ndarray) : Prop :=
  Forall (λ r, length r = ncols m) (rows m).

(** [np.zeros((r, c))] *)
Definition np_zeros (r c : nat) : ndarray :=
  {| ncols := c; rows := replicate r (replicate c zero) |}.

(** [m[i][j]] for non-negative [i], [j] *)
Definition getitem (m : ndarray) (i j : nat) : option F :=
  r ← rows m !! i; r !! j.

(** [m[i][j] = v] for non-negative [i], [j]: the row view [m[i]] is taken
    first, then its slot [j] is written; [None] stands for [IndexError]. *)
Definition setitem (m : ndarray) (i j : nat) (v : F) : option ndarray :=
  match rows m !! i with
  | Some r =>
      if decide (j < length r)
      then Some {| ncols := ncols m; rows := <[i := <[j := v]> r]> (rows m) |}
      else None
  | None => None
  end.

(** [np.delete(m, idx, axis=0)] for an integer [idx]; [None] stands for
    the [IndexError] NumPy raises for an index outside [-nrows, nrows). *)
Definition np_delete_axis0 (m : ndarray) (idx : Z) : option ndarray :=
  k ← norm_index idx (nrows m);
  Some {| ncols := ncols m; rows := delete k (rows m) |}.

(** [np.delete(m, idx, axis=1)] for an integer [idx]; [None] stands for
    the [IndexError] NumPy raises for an index outside [-ncols, ncols). *)
Definition np_delete_axis1 (m : ndarray) (idx : Z) : option ndarray :=
  k ← norm_index idx (ncols m);
  Some {| ncols := ncols m - 1; rows := delete k <$> rows m |}.

(** [np.column_stack((m, col))] for a two-dimensional [m] and a Python
    list [col], which becomes a column of shape [(len(col), 1)]; [None]
    stands for the [ValueError] of mismatched row counts. *)
Definition np_column_stack (m : ndarray) (col : list F) : option ndarray :=
  if decide (nrows m = length col)
  then Some {| ncols := S (ncols m);
               rows := zip_with (λ r c, r ++ [c]) (rows m) col |}
  else None.

(** [np.row_stack((m, row))] for a two-dimensional [m] and a Python list
    [row], which becomes a row of shape [(1, len(row))]; [None] stands
    for the [ValueError] of mismatched column counts. *)
Definition np_row_stack (m : ndarray) (row : list F) : option ndarray :=
  if decide (ncols m = length row)
  then Some {| ncols := ncols m; rows := rows m ++ [row] |}
  else None.

End Ndarray.
Arguments ndarray F : clear implicits.

(** ** The classes [Node] and [WSN] *)

Section WSN.
Context {F : Type} `{Float F}.

#[local] Instance F_inhabited : Inhabited F := populate zero.

Record Node := { x : F; y : F; r : F }.

(** [Node(pos, data_rate)] *)
Definition mkNode (pos : F * F) (data_rate : F) : Node :=
  {| x := pos.1; y := pos.2; r := data_rate |}.

(** The attributes of a [WSN] object.  [nodes] is the list handed to the
    constructor (the object keeps the caller's list, it does not copy
    it); the model follows the object's view of it. *)
Record WSN := {
  nodes : list Node;
  rho : F;
  alpha : F;
  beta_1 : F;
  beta_2 : F;
  charge_rate : F;
  wcv_x : F;
  wcv_y : F;
  base_x : F;
  base_y : F;
  max_charge : F;
  min_charge : F;
  power_mat : ndarray F
}.

Definition set_nodes (s : WSN) (ns : list Node) : WSN :=
  {| nodes := ns; rho := rho s; alpha := alpha s; beta_1 := beta_1 s;
     beta_2 := beta_2 s; charge_rate := charge_rate s;
     wcv_x := wcv_x s; wcv_y := wcv_y s;
     base_x := base_x s; base_y := base_y s;
     max_charge := max_charge s; min_charge := min_charge s;
     power_mat := power_mat s |}.

Definition set_power_mat (s : WSN) (m : ndarray F) : WSN :=
  {| nodes := nodes s; rho := rho s; alpha := alpha s; beta_1 := beta_1 s;
     beta_2 := beta_2 s; charge_rate := charge_rate s;
     wcv_x := wcv_x s; wcv_y := wcv_y s;
     base_x := base_x s; base_y := base_y s;
     max_charge := max_charge s; min_charge := min_charge s;
     power_mat := m |}.

(** [np.sqrt((x1 - x2) ** 2 + (y1 - y2) ** 2)] *)
Definition euclidean_distance (x1 y1 x2 y2 : F) : F :=
  fsqrt (fadd (fsquare (fsub x1 x2)) (fsquare (fsub y1 y2))).

(** [self.beta_1 + self.beta_2 * (dist ** self.alpha)] *)
Definition coeff (s : WSN) (x1 y1 x2 y2 : F) : F :=
  fadd (beta_1 s) (fmul (beta_2 s) (fpow (euclidean_distance x1 y1 x2 y2) (alpha s))).

(** [x_data] and [y_data] of [build_power_matrix]: the base station
    first, then the nodes in order. *)
Definition x_data (s : WSN) : list F := base_x s :: (x <$> nodes s).
Definition y_data (s : WSN) : list F := base_y s :: (y <$> nodes s).

(** The coefficient the full build computes for the index pair [(i, j)].
    The indices come from [range(len(x_data))], so the lookups
    [x_data[i]] and [y_data[i]] are always within bounds. *)
Definition pair_coeff (s : WSN) (i j : nat) : F :=
  coeff s (x_data s !!! i) (y_data s !!! i) (x_data s !!! j) (y_data s !!! j).

(** The loop of [build_power_matrix] over the remaining index pairs
    [ps], writing into [m] in place.  A failed write raises and leaves
    the writes made so far. *)
Fixpoint build_loop (s : WSN) (ps : list (nat * nat)) (m : ndarray F)
  : outcome (ndarray F) :=
  match ps with
  | [] => Returns m
  | (i, j) :: ps' =>
      let c := pair_coeff s i j in
      match setitem m i j c with
      | None => Raises IndexError m
      | Some m1 =>
          match setitem m1 j i c with
          | None => Raises IndexError m1
          | Some m2 => build_loop s ps' m2
          end
      end
  end.

(** Both slots of the index pair [(i, j)] hold the coefficient the
    build computes for it. *)
Definition pair_written (s : WSN) (m : ndarray F) (i j : nat) : Prop :=
  getitem m i j = Some (pair_coeff s i j) ∧
  getitem m j i = Some (pair_coeff s i j).

Definition build_pairs (s : WSN) : list (nat * nat) :=
  combinations2 (seq 0 (length (x_data s))).

(** [build_power_matrix()]: writes into [self.power_mat] as it is; only
    the constructor allocates the matrix. *)
Definition build_power_matrix (s : WSN) : outcome WSN :=
  match build_loop s (build_pairs s) (power_mat s) with
  | Returns m => Returns (set_power_mat s m)
  | Raises e m => Raises e (set_power_mat s m)
  end.

(** [WSN(nodes, rho, alpha, beta_1, beta_2, charge_rate, wcv_station,
    base, max_charge, min_charge)] *)
Definition init (nodes : list Node) (rho alpha beta_1 beta_2 charge_rate : F)
    (wcv_station base : F * F) (max_charge min_charge : F) : outcome WSN :=
  build_power_matrix
    {| nodes := nodes; rho := rho; alpha := alpha; beta_1 := beta_1;
       beta_2 := beta_2; charge_rate := charge_rate;
       wcv_x := wcv_station.1; wcv_y := wcv_station.2;
       base_x := base.1; base_y := base.2;
       max_charge := max_charge; min_charge := min_charge;
       power_mat := np_zeros (length nodes + 1) (length nodes + 1) |}.

(** [coefflist] of [add_sensor] after its loop: one coefficient per node
    already in the sequence, from [nodes[i]] to the new node. *)
Definition coefflist (s : WSN) (node : Node) : list F :=
  (λ nd, coeff s (x nd) (y nd) (x node) (y node)) <$> nodes s.

(** [add_sensor(node)]: the coefficients are computed, the node is
    appended, then the column and the row are stacked; each of the three
    assignments takes effect before the next statement runs. *)
Definition add_sensor (s : WSN) (node : Node) : outcome WSN :=
  let cl := coefflist s node in
  let s1 := set_nodes s (nodes s ++ [node]) in
  match np_column_stack (power_mat s1) cl with
  | None => Raises ValueError s1
  | Some m1 =>
      let s2 := set_power_mat s1 m1 in
      match np_row_stack (power_mat s2) (cl ++ [zero]) with
      | None => Raises ValueError s2
      | Some m2 => Returns (set_power_mat s2 m2)
      end
  end.

(** [remove_sensor(idx)]: [del self.nodes[idx]], then [np.delete] with
    the same [idx] along axis 0 and along axis 1. *)
Definition remove_sensor (s : WSN) (idx : Z) : outcome WSN :=
  match list_del (nodes s) idx with
  | None => Raises IndexError s
  | Some ns =>
      let s1 := set_nodes s ns in
      match np_delete_axis0 (power_mat s1) idx with
      | None => Raises IndexError s1
      | Some m1 =>
          let s2 := set_power_mat s1 m1 in
          match np_delete_axis1 (power_mat s2) idx with
          | None => Raises IndexError s2
          | Some m2 => Returns (set_power_mat s2 m2)
          end
      end
  end.

(** ** The stated properties of a network *)

(** [point_0] is the base location, [point_k] for [k >= 1] the position
    of [nodes[k-1]]. *)
Definition point (s : WSN) (k : nat) : option (F * F) :=
  match k with
  | 0 => Some (base_x s, base_y s)
  | S k' => (λ nd, (x nd, y nd)) <$> nodes s !! k'
  end.

(** [beta_1 + beta_2 * euclidean_distance(p, q) ** alpha] *)
Definition point_coeff (s : WSN) (p q : F * F) : F :=
  coeff s p.1 p.2 q.1 q.2.

(** The matrix is square of dimension [d]. *)
Definition square (d : nat) (m : ndarray F) : Prop :=
  wf m ∧ nrows m = d ∧ ncols m = d.

(** [m[i][j] == m[j][i]] for all indices of the matrix. *)
Definition symmetric (m : ndarray F) : Prop :=
  ∀ i j, i < nrows m → j < nrows m →
    ∃ v, getitem m i j = Some v ∧ getitem m j i = Some v.

(** [m[i][i] == 0] for all indices of the matrix. *)
Definition zero_diagonal (m : ndarray F) : Prop :=
  ∀ i, i < nrows m → getitem m i i = Some zero.

(** [power_mat[i][j]] is the coefficient of [point_i] and [point_j] for
    all distinct indices that denote a point. *)
Definition values_correct (s : WSN) : Prop :=
  ∀ i j p q, i ≠ j → point s i = Some p → point s j = Some q →
    getitem (power_mat s) i j = Some (point_coeff s p q).

(** What every reachable matrix satisfies: it is square, symmetric and
    zero on the diagonal. *)
Definition matrix_inv (m : ndarray F) : Prop :=
  (∃ d, square d m) ∧ symmetric m ∧ zero_diagonal m.

(** The states a network goes through: the constructor, then any calls
    of [add_sensor] and [remove_sensor], whether they return or raise
    (a caller that catches the exception keeps the object). *)
Inductive reachable : WSN → Prop :=
  | reachable_init ns rho alpha beta_1 beta_2 charge_rate wcv base maxc minc :
      reachable (state_of (init ns rho alpha beta_1 beta_2 charge_rate
                                wcv base maxc minc))
  | reachable_add s node :
      reachable s → reachable (state_of (add_sensor s node))
  | reachable_remove s idx :
      reachable s → reachable (state_of (remove_sensor s idx)).

(** Index [i] of an array after the deletion of slot [k] is index
    [skip k i] of the array before. *)
Definition skip (k i : nat) : nat := if decide (i < k) then i else S i.

End WSN.
Arguments Node F : clear implicits.
Arguments WSN F : clear implicits.

(** ** Concrete networks *)

Module Example.
Local Open Scope Z_scope.

Definition n0 : Node Z := mkNode (3, 0) 1.
Definition n1 : Node Z := mkNode (3, 4) 1.
Definition n2 : Node Z := mkNode (0, 4) 1.

(** [WSN([n0, n1], rho=0, alpha=1, beta_1=1, beta_2=2, charge_rate=0,
    wcv_station=(0, 0), base=(0, 0), max_charge=10, min_charge=1)] *)
Definition net2 : WSN Z :=
  state_of (init [n0; n1] 0 1 1 2 0 (0, 0) (0, 0) 10 1).

(** The same with the single node [n0]. *)
Definition net1 : WSN Z :=
  state_of (init [n0] 0 1 1 2 0 (0, 0) (0, 0) 10 1).
End Example.

(** * Properties *)

(** ** Integer arithmetic obeys the law *)

#[export] Instance Z_FloatLaws : FloatLaws Z.
Proof. constructor. intros a b. cbn. lia. Qed.

(** ** Index normalisation *)

Lemma norm_index_nonneg (idx : Z) (n : nat) :
  (0 ≤ idx < Z.of_nat n)%Z → norm_index idx n = Some (Z.to_nat idx).
Proof.
  intros Hi. unfold norm_index.
  rewrite decide_True by lia. by rewrite decide_False by lia.
Qed.

Lemma norm_index_neg (idx : Z) (n : nat) :
  (- Z.of_nat n ≤ idx < 0)%Z →
  norm_index idx n = Some (Z.to_nat (idx + Z.of_nat n)).
Proof.
  intros Hi. unfold norm_index.
  rewrite decide_True by lia. by rewrite decide_True by lia.
Qed.

Lemma norm_index_None (idx : Z) (n : nat) :
  (Z.of_nat n ≤ idx ∨ idx < - Z.of_nat n)%Z → norm_index idx n = None.
Proof. intros Hi. unfold norm_index. by rewrite decide_False by lia. Qed.

Lemma norm_index_Some_lt (idx : Z) (n k : nat) :
  norm_index idx n = Some k → k < n.
Proof.
  unfold norm_index. case_decide; [|done].
  intros [= <-]. case_decide; lia.
Qed.

(** ** The pairs visited by the build loop *)

Lemma elem_of_combinations2_seq (a n i j : nat) :
  (i, j) ∈ combinations2 (seq a n) ↔ a ≤ i ∧ i < j ∧ j < a + n.
Proof.
  revert a. induction n as [|n IH]; intros a; cbn [seq combinations2].
  - rewrite elem_of_nil. lia.
  - rewrite elem_of_app, list_elem_of_fmap, IH. split.
    + intros [(b & [= -> ->] & Hb)|?]; [|lia].
      apply elem_of_seq in Hb. lia.
    + intros (Ha & Hij & Hj). destruct (decide (i = a)) as [->|Hne].
      * left. exists j. split; [done|]. apply elem_of_seq. lia.
      * right. lia.
Qed.

Lemma combinations2_seq_lt (n : nat) :
  Forall (λ p, p.1 < p.2 ∧ p.2 < n) (combinations2 (seq 0 n)).
Proof.
  apply Forall_forall. intros [i j] Hin.
  apply elem_of_combinations2_seq in Hin. cbn. lia.
Qed.

(** ** Reading and writing array entries *)

Section NdarrayFacts.
Context {F : Type} `{Float F}.
Implicit Types (m : ndarray F) (v : F).

Lemma ndarray_eq m m' : ncols m = ncols m' → rows m = rows m' → m = m'.
Proof. destruct m, m'; cbn; congruence. Qed.

Lemma getitem_lt m i j v :
  wf m → getitem m i j = Some v → i < nrows m ∧ j < ncols m.
Proof.
  unfold getitem, nrows. intros Hwf Hg.
  destruct (rows m !! i) as [row|] eqn:Hrow; [|done]. cbn in Hg.
  split; [by eapply lookup_lt_Some|].
  rewrite <- (proj1 (Forall_lookup _ _) Hwf i row Hrow).
  by eapply lookup_lt_Some.
Qed.

Lemma getitem_is_Some m i j :
  wf m → i < nrows m → j < ncols m → is_Some (getitem m i j).
Proof.
  unfold getitem, nrows. intros Hwf Hi Hj.
  destruct (lookup_lt_is_Some_2 (rows m) i Hi) as [row Hrow].
  rewrite Hrow. cbn. apply lookup_lt_is_Some_2.
  by rewrite (proj1 (Forall_lookup _ _) Hwf i row Hrow).
Qed.

Lemma setitem_Some m i j v m' :
  setitem m i j v = Some m' →
  ∃ row, rows m !! i = Some row ∧ j < length row ∧
         m' = {| ncols := ncols m; rows := <[i := <[j := v]> row]> (rows m) |}.
Proof.
  unfold setitem. destruct (rows m !! i) as [row|]; [|done].
  case_decide; [|done]. intros [= <-]. eauto.
Qed.

Lemma setitem_getitem_eq m i j v m' :
  setitem m i j v = Some m' → getitem m' i j = Some v.
Proof.
  intros (row & Hrow & Hj & ->)%setitem_Some. unfold getitem; cbn.
  rewrite list_lookup_insert_eq by (by eapply lookup_lt_Some). cbn.
  by apply list_lookup_insert_eq.
Qed.

Lemma setitem_getitem_ne m i j v m' a b :
  setitem m i j v = Some m' → (a, b) ≠ (i, j) →
  getitem m' a b = getitem m a b.
Proof.
  intros (row & Hrow & Hj & ->)%setitem_Some Hne. unfold getitem; cbn.
  destruct (decide (a = i)) as [->|Hai].
  - rewrite list_lookup_insert_eq by (by eapply lookup_lt_Some).
    rewrite Hrow. cbn. apply list_lookup_insert_ne. congruence.
  - rewrite list_lookup_insert_ne; [done|congruence].
Qed.

(** Writing the value a slot already holds changes nothing. *)
Lemma setitem_absorb m i j v :
  getitem m i j = Some v → setitem m i j v = Some m.
Proof.
  unfold getitem, setitem.
  destruct (rows m !! i) as [row|] eqn:Hrow; [|done]. cbn. intros Hj.
  rewrite decide_True by (by eapply lookup_lt_Some). f_equal.
  apply ndarray_eq; cbn; [done|].
  rewrite (list_insert_id row j v) by done. by apply list_insert_id.
Qed.

(** A write that keeps the value of slot [(a, b)] when it hits it. *)
Lemma setitem_keeps m i j v m' a b w :
  setitem m i j v = Some m' → getitem m a b = Some w →
  ((a, b) = (i, j) → v = w) → getitem m' a b = Some w.
Proof.
  intros Hset Hget Hv. destruct (decide ((a, b) = (i, j))) as [Heq|Hne].
  - rewrite <- (Hv Heq). injection Heq as -> ->.
    by eapply setitem_getitem_eq.
  - by rewrite (setitem_getitem_ne _ _ _ _ _ _ _ Hset Hne).
Qed.

Lemma setitem_square d m i j v :
  square d m → i < d → j < d →
  ∃ m', setitem m i j v = Some m' ∧ square d m'.
Proof.
  intros (Hwf & Hr & Hc) Hi Hj. unfold setitem.
  destruct (lookup_lt_is_Some_2 (rows m) i) as [row Hrow];
    [unfold nrows in Hr; lia|].
  pose proof (proj1 (Forall_lookup _ _) Hwf i row Hrow) as Hlen.
  cbn in Hlen. rewrite Hrow, decide_True by lia.
  eexists; split; [done|]. repeat split; cbn.
  - apply Forall_insert; [done|]. by rewrite length_insert.
  - unfold nrows; cbn. by rewrite length_insert.
  - done.
Qed.

(** ** Deleting a row or a column *)

Lemma np_delete_axis0_Some m idx m' :
  np_delete_axis0 m idx = Some m' →
  ∃ k, norm_index idx (nrows m) = Some k ∧
       ncols m' = ncols m ∧ nrows m' = nrows m - 1 ∧ (wf m → wf m') ∧
       ∀ i j, getitem m' i j = getitem m (skip k i) j.
Proof.
  unfold np_delete_axis0.
  destruct (norm_index idx (nrows m)) as [k|] eqn:Hk; [|done].
  cbn. intros [= <-]. exists k. repeat split; cbn.
  - unfold nrows; cbn. apply length_delete, lookup_lt_is_Some_2.
    by eapply norm_index_Some_lt.
  - unfold wf; cbn. intros Hwf. apply Forall_forall. intros row Hin.
    apply list_elem_of_delete_inv in Hin.
    by apply (proj1 (Forall_forall _ _) Hwf).
  - intros i j. unfold getitem; cbn. by rewrite list_lookup_delete.
Qed.

Lemma np_delete_axis1_Some m idx m' :
  np_delete_axis1 m idx = Some m' →
  ∃ k, norm_index idx (ncols m) = Some k ∧
       ncols m' = ncols m - 1 ∧ nrows m' = nrows m ∧ (wf m → wf m') ∧
       ∀ i j, getitem m' i j = getitem m i (skip k j).
Proof.
  unfold np_delete_axis1.
  destruct (norm_index idx (ncols m)) as [k|] eqn:Hk; [|done].
  cbn. intros [= <-]. exists k. repeat split; cbn.
  - unfold nrows; cbn. by rewrite length_fmap.
  - unfold wf; cbn. intros Hwf. apply Forall_fmap.
    eapply Forall_impl; [exact Hwf|]. cbn. intros row Hlen.
    rewrite length_delete; [lia|]. apply lookup_lt_is_Some_2.
    apply norm_index_Some_lt in Hk. lia.
  - intros i j. unfold getitem; cbn. rewrite list_lookup_fmap.
    destruct (rows m !! i) as [row|]; [|done]. cbn.
    by rewrite list_lookup_delete.
Qed.

(** ** Stacking a column or a row *)

Lemma np_column_stack_Some m col m' :
  np_column_stack m col = Some m' → wf m →
  nrows m = length col ∧ ncols m' = S (ncols m) ∧ nrows m' = nrows m ∧
  wf m' ∧
  ∀ i j, i < nrows m →
    getitem m' i j =
      if decide (j < ncols m) then getitem m i j
      else if decide (j = ncols m) then col !! i else None.
Proof.
  unfold np_column_stack. case_decide as Hlen; [|done].
  intros [= <-] Hwf. unfold nrows in *. repeat split; cbn.
  - done.
  - rewrite length_zip_with. lia.
  - unfold wf; cbn. apply Forall_lookup. intros i row'.
    rewrite lookup_zip_with. intros Hz.
    destruct (rows m !! i) as [row|] eqn:Hrow; [|done]. cbn in Hz.
    destruct (col !! i) as [c|]; [|done]. cbn in Hz.
    injection Hz as <-. rewrite length_app. cbn.
    rewrite (proj1 (Forall_lookup _ _) Hwf i row Hrow). lia.
  - intros i j Hi. unfold getitem; cbn. rewrite lookup_zip_with.
    destruct (lookup_lt_is_Some_2 (rows m) i Hi) as [row Hrow].
    destruct (lookup_lt_is_Some_2 col i) as [c Hc]; [lia|].
    rewrite Hrow, Hc. cbn.
    pose proof (proj1 (Forall_lookup _ _) Hwf i row Hrow) as Hl. cbn in Hl.
    repeat case_decide.
    + by rewrite lookup_app_l by lia.
    + subst j. rewrite lookup_app_r by lia.
      by replace (ncols m - length row) with 0 by lia.
    + rewrite lookup_app_r by lia.
      destruct (j - length row) as [|n] eqn:Hn; [lia|done].
Qed.

Lemma np_row_stack_Some m row m' :
  np_row_stack m row = Some m' →
  ncols m = length row ∧ ncols m' = ncols m ∧ nrows m' = S (nrows m) ∧
  (wf m → wf m') ∧
  ∀ i j,
    getitem m' i j =
      if decide (i < nrows m) then getitem m i j
      else if decide (i = nrows m) then row !! j else None.
Proof.
  unfold np_row_stack. case_decide as Hlen; [|done].
  intros [= <-]. unfold nrows in *. repeat split; cbn.
  - done.
  - rewrite length_app. cbn. lia.
  - unfold wf; cbn. intros Hwf. apply Forall_app. split; [done|].
    by apply Forall_singleton.
  - intros i j. unfold getitem; cbn. repeat case_decide.
    + by rewrite lookup_app_l by lia.
    + subst i. rewrite lookup_app_r by lia.
      by replace (length (rows m) - length (rows m)) with 0 by lia.
    + rewrite lookup_app_r by lia.
      destruct (i - length (rows m)) as [|n] eqn:Hn; [lia|done].
Qed.

End NdarrayFacts.

(** ** The full build *)

Section BuildFacts.
Context {F : Type} `{Float F}.
Implicit Types (s : WSN F) (m : ndarray F) (ps : list (nat * nat)).

(** A later write of the loop never spoils an earlier pair: it either
    misses both slots or rewrites the same coefficient. *)
Lemma pair_written_setitem s m m' i j i' j' :
  i < j → i' < j' → pair_written s m i j →
  setitem m i' j' (pair_coeff s i' j') = Some m' ∨
  setitem m j' i' (pair_coeff s i' j') = Some m' →
  pair_written s m' i j.
Proof.
  intros Hij Hij' [Hw1 Hw2] [Hset|Hset]; split;
    (eapply setitem_keeps; [exact Hset|done|]);
    intros [= -> ->]; first [done|lia].
Qed.

Lemma pair_written_build_loop s ps m i j :
  Forall (λ p, p.1 < p.2) ps → i < j →
  pair_written s m i j → pair_written s (state_of (build_loop s ps m)) i j.
Proof.
  intros Hps Hij. revert m.
  induction Hps as [|[i' j'] ps Hlt Hps IH]; intros m Hw; cbn; [done|].
  cbn in Hlt.
  destruct (setitem m i' j' _) as [m1|] eqn:H1; [|done].
  assert (pair_written s m1 i j) as Hw1
    by (by apply (pair_written_setitem s m m1 i j i' j'); [..|left]).
  destruct (setitem m1 j' i' _) as [m2|] eqn:H2; [|done].
  apply IH.
  by apply (pair_written_setitem s m1 m2 i j i' j'); [..|right].
Qed.

Lemma pair_written_after_writes s m m1 m2 i j :
  i < j →
  setitem m i j (pair_coeff s i j) = Some m1 →
  setitem m1 j i (pair_coeff s i j) = Some m2 →
  pair_written s m2 i j.
Proof.
  intros Hij H1 H2. split.
  - eapply setitem_keeps; [exact H2|by eapply setitem_getitem_eq|].
    intros [= -> _]. lia.
  - by eapply setitem_getitem_eq.
Qed.

(** Running the loop again from the state it left gives the same
    outcome and the same array, whether it returned or raised. *)
Lemma build_loop_idem s ps m :
  Forall (λ p, p.1 < p.2) ps →
  build_loop s ps (state_of (build_loop s ps m)) = build_loop s ps m.
Proof.
  intros Hps. revert m.
  induction Hps as [|[i j] ps Hlt Hps IH]; intros m; [done|].
  cbn in Hlt. cbn [build_loop].
  destruct (setitem m i j _) as [m1|] eqn:H1.
  - destruct (setitem m1 j i _) as [m2|] eqn:H2.
    + assert (pair_written s (state_of (build_loop s ps m2)) i j)
        as [Hw1 Hw2].
      { apply pair_written_build_loop; [done..|].
        by eapply pair_written_after_writes. }
      rewrite (setitem_absorb _ _ _ _ Hw1), (setitem_absorb _ _ _ _ Hw2).
      apply IH.
    + cbn.
      rewrite (setitem_absorb m1 i j _ (setitem_getitem_eq _ _ _ _ _ H1)).
      by rewrite H2.
  - cbn. by rewrite H1.
Qed.

Lemma build_loop_returns s ps m d :
  square d m → Forall (λ p, p.1 < d ∧ p.2 < d) ps →
  ∃ m', build_loop s ps m = Returns m' ∧ square d m'.
Proof.
  intros Hsq Hps. revert m Hsq.
  induction Hps as [|[i j] ps [Hi Hj] Hps IH]; intros m Hsq; cbn in *.
  - eauto.
  - destruct (setitem_square d m i j (pair_coeff s i j))
      as (m1 & -> & Hsq1); [done..|].
    destruct (setitem_square d m1 j i (pair_coeff s i j))
      as (m2 & -> & Hsq2); [done..|].
    by apply IH.
Qed.

Lemma build_loop_written s ps m m' i j :
  Forall (λ p, p.1 < p.2) ps → (i, j) ∈ ps →
  build_loop s ps m = Returns m' → pair_written s m' i j.
Proof.
  intros Hps. revert m.
  induction Hps as [|[i' j'] ps Hlt Hps IH]; intros m Hin Hb.
  - by apply elem_of_nil in Hin.
  - cbn in Hlt, Hb.
    destruct (setitem m i' j' _) as [m1|] eqn:H1; [|done].
    destruct (setitem m1 j' i' _) as [m2|] eqn:H2; [|done].
    apply elem_of_cons in Hin as [[= -> ->]|Hin]; [|by eapply IH].
    replace m' with (state_of (build_loop s ps m2)) by (by rewrite Hb).
    apply pair_written_build_loop; [done..|].
    by eapply pair_written_after_writes.
Qed.

(** The loop never writes on the diagonal. *)
Lemma build_loop_diag s ps m a :
  Forall (λ p, p.1 < p.2) ps →
  getitem (state_of (build_loop s ps m)) a a = getitem m a a.
Proof.
  intros Hps. revert m.
  induction Hps as [|[i j] ps Hlt Hps IH]; intros m; cbn in *; [done|].
  destruct (setitem m i j _) as [m1|] eqn:H1; [|done].
  assert (getitem m1 a a = getitem m a a) as E1.
  { eapply setitem_getitem_ne; [exact H1|]. intros [= -> ->]. lia. }
  destruct (setitem m1 j i _) as [m2|] eqn:H2; [|done].
  rewrite IH, <- E1.
  eapply setitem_getitem_ne; [exact H2|]. intros [= -> ->]. lia.
Qed.

Lemma build_pairs_lt s :
  Forall (λ p, p.1 < p.2) (build_pairs s).
Proof.
  eapply Forall_impl; [apply combinations2_seq_lt|]. cbn. tauto.
Qed.

Lemma length_x_data s : length (x_data s) = S (length (nodes s)).
Proof. unfold x_data. cbn. by rewrite length_fmap. Qed.

(** On a matrix of the dimension of the point list the build returns,
    having written every pair and nothing else. *)
Lemma build_power_matrix_spec s :
  square (S (length (nodes s))) (power_mat s) →
  ∃ m', build_power_matrix s = Returns (set_power_mat s m') ∧
        square (S (length (nodes s))) m' ∧
        (∀ i j, i < j → j < S (length (nodes s)) → pair_written s m' i j) ∧
        (∀ a, getitem m' a a = getitem (power_mat s) a a).
Proof.
  intros Hsq. unfold build_power_matrix.
  destruct (build_loop_returns s (build_pairs s) (power_mat s) _ Hsq)
    as (m' & Hb & Hsq').
  { unfold build_pairs. rewrite length_x_data.
    eapply Forall_impl; [apply combinations2_seq_lt|]. cbn. lia. }
  rewrite Hb. exists m'. repeat split; try apply Hsq'.
  - eapply build_loop_written; [apply build_pairs_lt| |exact Hb].
    unfold build_pairs. rewrite length_x_data.
    apply elem_of_combinations2_seq. lia.
  - eapply build_loop_written; [apply build_pairs_lt| |exact Hb].
    unfold build_pairs. rewrite length_x_data.
    apply elem_of_combinations2_seq. lia.
  - intros a.
    replace m' with (state_of (build_loop s (build_pairs s) (power_mat s)))
      by (by rewrite Hb).
    apply build_loop_diag, build_pairs_lt.
Qed.

End BuildFacts.

(** ** Construction *)

Section InitFacts.
Context {F : Type} `{Float F}.
#[local] Existing Instance F_inhabited.
Implicit Types (s : WSN F) (m : ndarray F).

Lemma getitem_np_zeros (rs cs i j : nat) :
  i < rs → j < cs → getitem (np_zeros rs cs) i j = Some (zero : F).
Proof.
  intros Hi Hj. unfold getitem, np_zeros; cbn.
  rewrite lookup_replicate_2 by done. cbn. by apply lookup_replicate_2.
Qed.

Lemma np_zeros_square (d : nat) : square d (np_zeros (F:=F) d d).
Proof.
  unfold square, wf, nrows, np_zeros; cbn. repeat split.
  - apply Forall_replicate. by rewrite length_replicate.
  - by rewrite length_replicate.
Qed.

(** The point list of the build is the base followed by the node
    positions. *)
Lemma point_data s i p :
  point s i = Some p →
  x_data s !!! i = p.1 ∧ y_data s !!! i = p.2 ∧ i < S (length (nodes s)).
Proof.
  destruct i as [|i]; cbn.
  - intros [= <-]. repeat split. lia.
  - destruct (nodes s !! i) as [nd|] eqn:Hnd; [|done]. intros [= <-].
    repeat split.
    + apply list_lookup_total_correct. unfold x_data. cbn.
      by rewrite list_lookup_fmap, Hnd.
    + apply list_lookup_total_correct. unfold y_data. cbn.
      by rewrite list_lookup_fmap, Hnd.
    + apply lookup_lt_Some in Hnd. lia.
Qed.

Lemma point_is_Some s i : i < S (length (nodes s)) → is_Some (point s i).
Proof.
  destruct i as [|i]; cbn; [eauto|]. intros Hi.
  destruct (lookup_lt_is_Some_2 (nodes s) i) as [nd ->]; [lia|]. by eexists.
Qed.

Lemma pair_coeff_points s i j p q :
  point s i = Some p → point s j = Some q →
  pair_coeff s i j = point_coeff s p q.
Proof.
  intros (Hx1 & Hy1 & _)%point_data (Hx2 & Hy2 & _)%point_data.
  unfold pair_coeff, point_coeff. by rewrite Hx1, Hy1, Hx2, Hy2.
Qed.

Lemma coeff_swap `{!FloatLaws F} s (x1 y1 x2 y2 : F) :
  coeff s x1 y1 x2 y2 = coeff s x2 y2 x1 y1.
Proof.
  unfold coeff, euclidean_distance.
  by rewrite (fsquare_fsub_swap x1 x2), (fsquare_fsub_swap y1 y2).
Qed.

(** A matrix in which every pair below the dimension is written is
    symmetric, and holds the coefficient of the two points off the
    diagonal. *)
Lemma pairs_written_symmetric s m d :
  square d m →
  (∀ i j, i < j → j < d → pair_written s m i j) →
  symmetric m.
Proof.
  intros (Hwf & Hr & Hc) Hw i j Hi Hj. rewrite Hr in Hi, Hj.
  destruct (Nat.lt_total i j) as [Hlt|[->|Hlt]].
  - destruct (Hw i j Hlt Hj) as [H1 H2]. eauto.
  - destruct (getitem_is_Some m j j Hwf) as [v Hv]; [lia..|]. eauto.
  - destruct (Hw j i Hlt Hi) as [H1 H2]. eauto.
Qed.

Lemma pairs_written_values `{!FloatLaws F} s m :
  (∀ i j, i < j → j < S (length (nodes s)) → pair_written s m i j) →
  values_correct (set_power_mat s m).
Proof.
  intros Hw i j p q Hne Hp Hq. cbn.
  change (point s i = Some p) in Hp. change (point s j = Some q) in Hq.
  change (point_coeff (set_power_mat s m) p q) with (point_coeff s p q).
  pose proof (point_data _ _ _ Hp) as (_ & _ & Hi).
  pose proof (point_data _ _ _ Hq) as (_ & _ & Hj).
  destruct (Nat.lt_total i j) as [Hlt|[->|Hlt]]; [|done|].
  - destruct (Hw i j Hlt Hj) as [-> _].
    by rewrite (pair_coeff_points s i j p q).
  - destruct (Hw j i Hlt Hi) as [_ ->].
    rewrite (pair_coeff_points s j i q p) by done.
    unfold point_coeff. by rewrite coeff_swap.
Qed.

Lemma build_loop_set_power_mat s m0 ps m :
  build_loop (set_power_mat s m0) ps m = build_loop s ps m.
Proof.
  revert m. induction ps as [|[i j] ps IH]; intros m; cbn; [done|].
  change (pair_coeff (set_power_mat s m0) i j) with (pair_coeff s i j).
  destruct (setitem m i j _) as [m1|]; [|done].
  destruct (setitem m1 j i _) as [m2|]; [|done].
  apply IH.
Qed.

(** The constructor returns, with every pair written into a zero
    matrix of dimension [len(nodes) + 1]. *)
Lemma init_spec (ns : list (Node F)) (rho alpha beta_1 beta_2 charge_rate : F)
    (wcv base : F * F) (maxc minc : F) :
  ∃ m,
    let s := {| nodes := ns; rho := rho; alpha := alpha; beta_1 := beta_1;
                beta_2 := beta_2; charge_rate := charge_rate;
                wcv_x := wcv.1; wcv_y := wcv.2;
                base_x := base.1; base_y := base.2;
                max_charge := maxc; min_charge := minc;
                power_mat := m |} in
    init ns rho alpha beta_1 beta_2 charge_rate wcv base maxc minc
      = Returns s ∧
    square (length ns + 1) m ∧ symmetric m ∧ zero_diagonal m ∧
    (∀ i j, i < j → j < S (length ns) → pair_written s m i j).
Proof.
  unfold init. rewrite Nat.add_1_r.
  set (s0 := {| nodes := ns; power_mat := np_zeros _ _ |}).
  destruct (build_power_matrix_spec s0) as (m & Hb & Hsq & Hw & Hd).
  { apply np_zeros_square. }
  exists m. cbn zeta. rewrite Hb. split; [done|].
  split; [done|]. split; [|split].
  - by eapply pairs_written_symmetric.
  - intros i Hi. destruct Hsq as (_ & Hr & _). rewrite Hr in Hi.
    rewrite Hd. by apply getitem_np_zeros.
  - exact Hw.
Qed.

(** C2. Immediately after construction from any node list and
    parameters -- that is, after [build_power_matrix] on the freshly
    zero-initialised matrix -- the constructor has returned, the matrix
    is square of dimension [len(nodes) + 1], symmetric, zero on the
    diagonal, and off the diagonal [power_mat[i][j]] is
    [beta_1 + beta_2 * dist(point_i, point_j) ** alpha].  The parameters
    are stored as given. *)
Theorem init_power_matrix `{!FloatLaws F}
    (ns : list (Node F)) (rho alpha beta_1 beta_2 charge_rate : F)
    (wcv base : F * F) (maxc minc : F) :
  ∃ m,
    let s := {| nodes := ns; rho := rho; alpha := alpha; beta_1 := beta_1;
                beta_2 := beta_2; charge_rate := charge_rate;
                wcv_x := wcv.1; wcv_y := wcv.2;
                base_x := base.1; base_y := base.2;
                max_charge := maxc; min_charge := minc;
                power_mat := m |} in
    init ns rho alpha beta_1 beta_2 charge_rate wcv base maxc minc
      = Returns s ∧
    square (length ns + 1) (power_mat s) ∧
    symmetric (power_mat s) ∧
    zero_diagonal (power_mat s) ∧
    values_correct s.
Proof.
  destruct (init_spec ns rho alpha beta_1 beta_2 charge_rate wcv base
              maxc minc) as (m & Hinit & Hsq & Hsym & Hz & Hw).
  exists m. cbn zeta in *. cbn [power_mat]. repeat (split; [done|]).
  match type of Hinit with
  | _ = Returns ?s => exact (pairs_written_values s m Hw)
  end.
Qed.

(** C7. Calling [build_power_matrix] a second time, with the node list
    unchanged, leaves exactly the matrix (and the outcome) of the first
    call, for every network whatever the shape of its matrix. *)
Theorem build_power_matrix_idem s :
  build_power_matrix (state_of (build_power_matrix s))
    = build_power_matrix s.
Proof.
  unfold build_power_matrix.
  pose proof (build_loop_idem s (build_pairs s) (power_mat s)
                (build_pairs_lt s)) as Hidem.
  destruct (build_loop s (build_pairs s) (power_mat s)) as [m|e m];
    cbn [state_of] in *.
  - change (build_pairs (set_power_mat s m)) with (build_pairs s).
    cbn [power_mat set_power_mat].
    by rewrite build_loop_set_power_mat, Hidem.
  - change (build_pairs (set_power_mat s m)) with (build_pairs s).
    cbn [power_mat set_power_mat].
    by rewrite build_loop_set_power_mat, Hidem.
Qed.

End InitFacts.

(** ** Removal and insertion *)

Section MutatorFacts.
Context {F : Type} `{Float F}.
Implicit Types (s : WSN F) (m : ndarray F).

Lemma skip_lt (k i d : nat) : i < d - 1 → skip k i < d.
Proof. unfold skip. case_decide; lia. Qed.

Lemma skip_inj (k i j : nat) : skip k i = skip k j → i = j.
Proof. unfold skip. repeat case_decide; lia. Qed.

Lemma skip_S (k i : nat) : skip (S k) (S i) = S (skip k i).
Proof. unfold skip. repeat case_decide; lia. Qed.

(** When the index is accepted by the node list ([kn]) and by the
    matrix ([km]), the removal returns, with slot [km] gone from both
    axes of the matrix. *)
Lemma remove_sensor_spec s idx d kn km :
  square d (power_mat s) →
  norm_index idx (length (nodes s)) = Some kn →
  norm_index idx d = Some km →
  ∃ m',
    remove_sensor s idx
      = Returns (set_power_mat (set_nodes s (delete kn (nodes s))) m') ∧
    square (d - 1) m' ∧
    ∀ i j, getitem m' i j = getitem (power_mat s) (skip km i) (skip km j).
Proof.
  intros (Hwf & Hr & Hc) Hkn Hkm. unfold remove_sensor, list_del.
  rewrite Hkn. cbn [mbind option_bind set_nodes power_mat].
  destruct (np_delete_axis0 (power_mat s) idx) as [m1|] eqn:H0.
  2: { unfold np_delete_axis0 in H0. by rewrite Hr, Hkm in H0. }
  destruct (np_delete_axis0_Some _ _ _ H0)
    as (k & Hk & Hc1 & Hr1 & Hwf1 & Hg1).
  rewrite Hr, Hkm in Hk. injection Hk as <-.
  cbn [set_power_mat power_mat].
  destruct (np_delete_axis1 m1 idx) as [m2|] eqn:H1.
  2: { unfold np_delete_axis1 in H1. by rewrite Hc1, Hc, Hkm in H1. }
  destruct (np_delete_axis1_Some _ _ _ H1)
    as (k' & Hk' & Hc2 & Hr2 & Hwf2 & Hg2).
  rewrite Hc1, Hc, Hkm in Hk'. injection Hk' as <-.
  exists m2. split; [done|]. split.
  - repeat split; [auto|lia..].
  - intros i j. by rewrite Hg2, Hg1.
Qed.

(** Whatever the index, a removal from a square matrix either leaves
    the matrix as it was or deletes one slot from both axes. *)
Lemma remove_sensor_cases s idx d :
  square d (power_mat s) →
  power_mat (state_of (remove_sensor s idx)) = power_mat s ∨
  ∃ km, norm_index idx d = Some km ∧
    square (d - 1) (power_mat (state_of (remove_sensor s idx))) ∧
    ∀ i j, getitem (power_mat (state_of (remove_sensor s idx))) i j
           = getitem (power_mat s) (skip km i) (skip km j).
Proof.
  intros Hsq.
  destruct (norm_index idx (length (nodes s))) as [kn|] eqn:Hkn.
  - destruct (norm_index idx d) as [km|] eqn:Hkm.
    + right. exists km.
      destruct (remove_sensor_spec s idx d kn km Hsq Hkn Hkm)
        as (m' & -> & Hsq' & Hg). by cbn.
    + left. unfold remove_sensor, list_del. rewrite Hkn.
      cbn [mbind option_bind set_nodes power_mat].
      unfold np_delete_axis0. destruct Hsq as (_ & -> & _).
      by rewrite Hkm.
  - left. unfold remove_sensor, list_del. by rewrite Hkn.
Qed.

Lemma remove_sensor_inv s idx :
  matrix_inv (power_mat s) →
  matrix_inv (power_mat (state_of (remove_sensor s idx))).
Proof.
  intros ([d Hsq] & Hsym & Hz).
  destruct (remove_sensor_cases s idx d Hsq)
    as [->|(km & Hkm & Hsq' & Hg)]; [by repeat split; eauto|].
  pose proof Hsq as (_ & Hr & _). pose proof Hsq' as (_ & Hr' & _).
  split; [eauto|]. split.
  - intros i j Hi Hj. rewrite !Hg. rewrite Hr' in Hi, Hj.
    apply Hsym; rewrite Hr; by apply skip_lt.
  - intros i Hi. rewrite Hg. rewrite Hr' in Hi.
    apply Hz. rewrite Hr. by apply skip_lt.
Qed.

Lemma length_coefflist s node :
  length (coefflist s node) = length (nodes s).
Proof. unfold coefflist. by rewrite length_fmap. Qed.

Lemma add_sensor_inv s node :
  matrix_inv (power_mat s) →
  matrix_inv (power_mat (state_of (add_sensor s node))).
Proof.
  intros ([d Hsq] & Hsym & Hz). pose proof Hsq as (Hwf & Hr & Hc).
  unfold add_sensor. cbn [set_nodes power_mat].
  set (cl := coefflist s node).
  destruct (np_column_stack (power_mat s) cl) as [m1|] eqn:Hcs;
    [|by split; eauto].
  destruct (np_column_stack_Some _ _ _ Hcs Hwf)
    as (Hlen & Hc1 & Hr1 & Hwf1 & Hg1).
  cbn [set_power_mat power_mat].
  destruct (np_row_stack m1 (cl ++ [zero])) as [m2|] eqn:Hrs.
  2: { unfold np_row_stack in Hrs. rewrite decide_True in Hrs; [done|].
       rewrite length_app. cbn. lia. }
  destruct (np_row_stack_Some _ _ _ Hrs) as (_ & Hc2 & Hr2 & Hwf2 & Hg2).
  cbn [state_of set_power_mat power_mat].
  assert (∀ i, i < d → ∃ c, cl !! i = Some c ∧ (cl ++ [zero]) !! i = Some c)
    as Hcl.
  { intros i Hi. destruct (lookup_lt_is_Some_2 cl i) as [c Hci]; [lia|].
    exists c. split; [done|]. rewrite lookup_app_l by lia. done. }
  assert ((cl ++ [zero]) !! d = Some zero) as Hlast.
  { rewrite lookup_app_r by lia. by replace (d - length cl) with 0 by lia. }
  split; [|split].
  - exists (S d). repeat split; [auto|lia..].
  - intros i j Hi Hj. rewrite !Hg2, Hr1, Hr.
    destruct (decide (i < d)) as [Hid|Hid];
      destruct (decide (j < d)) as [Hjd|Hjd].
    + rewrite !Hg1 by lia. rewrite Hc, !decide_True by lia.
      apply Hsym; lia.
    + rewrite !decide_True by lia. rewrite Hg1 by lia.
      rewrite Hc, decide_False, decide_True by lia.
      assert (j = d) as -> by lia.
      destruct (Hcl i Hid) as (c & -> & ->). eauto.
    + rewrite !decide_True by lia. rewrite Hg1 by lia.
      rewrite Hc, decide_False, decide_True by lia.
      assert (i = d) as -> by lia.
      destruct (Hcl j Hjd) as (c & -> & ->). eauto.
    + rewrite !decide_True by lia.
      assert (i = d) as -> by lia. assert (j = d) as -> by lia. eauto.
  - intros i Hi. rewrite Hg2, Hr1, Hr.
    destruct (decide (i < d)) as [Hid|Hid].
    + rewrite Hg1 by lia. rewrite Hc, decide_True by lia. apply Hz. lia.
    + rewrite decide_True by lia. by assert (i = d) as -> by lia.
Qed.

Lemma reachable_matrix_inv s : reachable s → matrix_inv (power_mat s).
Proof.
  induction 1 as [ns rho alpha b1 b2 cr wcv base maxc minc| |].
  - destruct (init_spec ns rho alpha b1 b2 cr wcv base maxc minc)
      as (m & -> & Hsq & Hsym & Hz & _).
    cbn. repeat split; eauto.
  - by apply add_sensor_inv.
  - by apply remove_sensor_inv.
Qed.

End MutatorFacts.

(** ** The operations on a network *)

Section Operations.
Context {F : Type} `{Float F}.
Implicit Types (s : WSN F) (m : ndarray F).

(** C4. For a valid 0-based index [idx] into the node sequence (of a
    network whose square matrix has at least as many slots as there are
    nodes), [remove_sensor(idx)] returns, deletes [nodes[idx]] from the
    sequence, and deletes row [idx] and column [idx] of the matrix --
    the matrix index is the sequence index itself, not [idx + 1] -- so
    that the dimension drops by one. *)
Theorem remove_sensor_valid_index s (idx : Z) (d : nat) :
  square d (power_mat s) →
  length (nodes s) ≤ d →
  (0 ≤ idx < Z.of_nat (length (nodes s)))%Z →
  let k := Z.to_nat idx in
  ∃ m',
    remove_sensor s idx
      = Returns (set_power_mat (set_nodes s (delete k (nodes s))) m') ∧
    length (delete k (nodes s)) = length (nodes s) - 1 ∧
    (∀ i, delete k (nodes s) !! i = nodes s !! skip k i) ∧
    square (d - 1) m' ∧
    ∀ i j, getitem m' i j = getitem (power_mat s) (skip k i) (skip k j).
Proof.
  intros Hsq Hle Hidx k.
  destruct (remove_sensor_spec s idx d k k Hsq) as (m' & Hrem & Hsq' & Hg).
  { by apply norm_index_nonneg. }
  { apply norm_index_nonneg. lia. }
  exists m'. split; [done|]. split; [|split; [|done]].
  - apply length_delete, lookup_lt_is_Some_2. lia.
  - intros i. apply list_lookup_delete.
Qed.

(** C5, as the code has it. [remove_sensor(idx)] with
    [idx >= len(nodes)] or [idx < -len(nodes)] raises [IndexError] and
    leaves the node sequence and the matrix as they were. *)
Theorem remove_sensor_index_error s (idx : Z) :
  (Z.of_nat (length (nodes s)) ≤ idx ∨ idx < - Z.of_nat (length (nodes s)))%Z →
  remove_sensor s idx = Raises IndexError s.
Proof.
  intros Hidx. unfold remove_sensor, list_del.
  by rewrite norm_index_None.
Qed.

(** C6. In every network reachable through the constructor,
    [add_sensor] and [remove_sensor], [power_mat[i][j] ==
    power_mat[j][i]] for all indices and [power_mat[i][i] == 0]. *)
Theorem reachable_symmetric_zero_diagonal s :
  reachable s → symmetric (power_mat s) ∧ zero_diagonal (power_mat s).
Proof. intros Hs. by destruct (reachable_matrix_inv s Hs) as (_ & ? & ?). Qed.


(** C10, as the code has it. On a network with [n >= 1] nodes and a
    square matrix of dimension [n + 1], [remove_sensor(idx)] for
    [-n <= idx <= -1] returns, removes
    [nodes[n + idx]] and the matrix row and column [n + 1 + idx], which
    is the slot of that node; the remaining slots keep denoting the
    remaining points, so a matrix with correct values stays correct. *)
Theorem remove_sensor_negative_index s (idx : Z) (n : nat) :
  length (nodes s) = n →
  1 ≤ n →
  (- Z.of_nat n ≤ idx ≤ -1)%Z →
  square (n + 1) (power_mat s) →
  let kn := Z.to_nat (Z.of_nat n + idx) in
  let km := Z.to_nat (Z.of_nat n + 1 + idx) in
  ∃ m',
    let s' := set_power_mat (set_nodes s (delete kn (nodes s))) m' in
    remove_sensor s idx = Returns s' ∧
    km = S kn ∧
    square n m' ∧
    (∀ i j, getitem m' i j = getitem (power_mat s) (skip km i) (skip km j)) ∧
    (∀ i, point s' i = point s (skip km i)) ∧
    (values_correct s → values_correct s').
Proof.
  intros Hn Hn1 Hidx Hsq kn km.
  assert (km = S kn) as Hkm by lia.
  destruct (remove_sensor_spec s idx (n + 1) kn km Hsq)
    as (m' & Hrem & Hsq' & Hg).
  { rewrite Hn, norm_index_neg by lia. f_equal. lia. }
  { rewrite norm_index_neg by lia. f_equal. lia. }
  exists m'. cbn zeta. split; [done|]. split; [done|].
  replace (n + 1 - 1) with n in Hsq' by lia. split; [done|].
  split; [done|].
  assert (∀ i, point (set_power_mat (set_nodes s (delete kn (nodes s))) m') i
               = point s (skip km i)) as Hpt.
  { intros [|i]; rewrite Hkm.
    - done.
    - rewrite skip_S. cbn. by rewrite list_lookup_delete. }
  split; [done|].
  intros Hv i j p q Hne Hp Hq. rewrite Hpt in Hp, Hq.
  cbn [power_mat set_power_mat]. rewrite Hg.
  apply (Hv (skip km i) (skip km j) p q); [|done..].
  intros E. by apply skip_inj in E.
Qed.

End Operations.

(** ** Insertion followed by removal *)

Section RoundTrip.
Context {F : Type} `{Float F}.
Implicit Types (s : WSN F) (m : ndarray F).

Lemma delete_snoc {A : Type} (n : nat) (l : list A) (a : A) :
  length l = n → delete n (l ++ [a]) = l.
Proof. intros <-. by rewrite delete_middle, app_nil_r. Qed.

Lemma delete_last_column (n : nat) (rs : list (list F)) (col : list F) :
  Forall (λ row, length row = n) rs → length rs = length col →
  delete n <$> zip_with (λ row c, row ++ [c]) rs col = rs.
Proof.
  intros Hwf. revert col.
  induction Hwf as [|row rs Hrow Hwf IH]; intros [|c col] Hlen;
    cbn in *; try done.
  rewrite IH by lia. f_equal. by apply delete_snoc.
Qed.

(** X4. Where [add_sensor] does return -- the matrix then has exactly
    [len(nodes)] rows and columns -- removing the sensor just added, at
    sequence index [len(nodes)], gives back the network as it was. *)
Lemma add_remove_roundtrip s node s1 :
  wf (power_mat s) →
  add_sensor s node = Returns s1 →
  nrows (power_mat s) = length (nodes s) ∧
  ncols (power_mat s) = length (nodes s) ∧
  nrows (power_mat s1) = S (length (nodes s)) ∧
  remove_sensor s1 (Z.of_nat (length (nodes s))) = Returns s.
Proof.
  intros Hwf. unfold add_sensor, np_column_stack.
  cbn [set_nodes set_power_mat power_mat].
  case_decide as Hr; [|done]. unfold np_row_stack. cbn [ncols rows].
  case_decide as Hc; [|done]. intros [= <-].
  rewrite length_coefflist in Hr.
  rewrite length_app, length_coefflist in Hc. cbn in Hc.
  set (n := length (nodes s)) in *.
  assert (ncols (power_mat s) = n) as Hc' by lia.
  set (rs := zip_with (λ row c, row ++ [c]) (rows (power_mat s))
               (coefflist s node)).
  assert (length rs = n) as Hrs.
  { unfold rs. rewrite length_zip_with, length_coefflist.
    unfold nrows in Hr. lia. }
  cbn [nodes set_power_mat set_nodes power_mat].
  repeat (split; [done|]).
  split; [unfold nrows; cbn [rows]; rewrite length_app; cbn; lia|].
  unfold remove_sensor, list_del.
  cbn [nodes set_power_mat set_nodes power_mat].
  rewrite norm_index_nonneg by (rewrite length_app; cbn; lia).
  rewrite Nat2Z.id. cbn [mbind option_bind].
  unfold np_delete_axis0, nrows. cbn [rows ncols].
  rewrite norm_index_nonneg by (rewrite length_app; cbn; lia).
  rewrite Nat2Z.id. cbn [mbind option_bind].
  unfold np_delete_axis1. cbn [rows ncols].
  rewrite norm_index_nonneg by lia.
  rewrite Nat2Z.id. cbn [mbind option_bind]. f_equal.
  rewrite !delete_snoc by done. unfold rs.
  rewrite delete_last_column;
    [|by unfold wf in Hwf; rewrite Hc' in Hwf
     |by rewrite length_coefflist].
  destruct s as [? ? ? ? ? ? ? ? ? ? ? ? pm]. cbn in *. f_equal.
  apply ndarray_eq; cbn; [lia|done].
Qed.
End RoundTrip.

(** ** When insertion returns, and what it writes *)

Section AddFacts.
Context {F : Type} `{Float F}.
Implicit Types (s : WSN F) (m : ndarray F).

Lemma add_sensor_mismatch s node d :
  square d (power_mat s) → d ≠ length (nodes s) →
  add_sensor s node = Raises ValueError (set_nodes s (nodes s ++ [node])).
Proof.
  intros (_ & Hr & _) Hd. unfold add_sensor, np_column_stack.
  cbn [set_nodes power_mat].
  rewrite decide_False; [done|]. rewrite length_coefflist. lia.
Qed.

Lemma add_sensor_match s node d :
  square d (power_mat s) → d = length (nodes s) →
  ∃ m',
    add_sensor s node
      = Returns (set_power_mat (set_nodes s (nodes s ++ [node])) m') ∧
    square (S d) m' ∧
    (∀ i j, i < d → j < d → getitem m' i j = getitem (power_mat s) i j) ∧
    (∀ i nd, nodes s !! i = Some nd →
       getitem m' i d = Some (coeff s (x nd) (y nd) (x node) (y node)) ∧
       getitem m' d i = Some (coeff s (x nd) (y nd) (x node) (y node))) ∧
    getitem m' d d = Some zero.
Proof.
  intros (Hwf & Hr & Hc) Hd. unfold add_sensor.
  cbn [set_nodes power_mat].
  pose proof (length_coefflist s node) as Hcl.
  set (cl := coefflist s node) in *.
  destruct (np_column_stack (power_mat s) cl) as [m1|] eqn:Hcs.
  2: { unfold np_column_stack in Hcs.
       rewrite decide_True in Hcs; [done|lia]. }
  destruct (np_column_stack_Some _ _ _ Hcs Hwf)
    as (_ & Hc1 & Hr1 & Hwf1 & Hg1).
  cbn [set_power_mat power_mat].
  destruct (np_row_stack m1 (cl ++ [zero])) as [m2|] eqn:Hrs.
  2: { unfold np_row_stack in Hrs. rewrite decide_True in Hrs; [done|].
       rewrite length_app. cbn. lia. }
  destruct (np_row_stack_Some _ _ _ Hrs) as (_ & Hc2 & Hr2 & Hwf2 & Hg2).
  exists m2. split; [done|]. split; [repeat split; [auto|lia..]|].
  split; [|split].
  - intros i j Hi Hj. rewrite Hg2, decide_True by lia.
    rewrite Hg1 by lia. by rewrite decide_True by lia.
  - intros i nd Hnd. pose proof (lookup_lt_Some _ _ _ Hnd) as Hi.
    assert (cl !! i = Some (coeff s (x nd) (y nd) (x node) (y node))) as Hci.
    { unfold cl, coefflist. by rewrite list_lookup_fmap, Hnd. }
    split.
    + rewrite Hg2, decide_True by lia. rewrite Hg1 by lia.
      rewrite decide_False by lia. by rewrite decide_True by lia.
    + rewrite Hg2, decide_False by lia. rewrite decide_True by lia.
      by rewrite lookup_app_l by lia.
  - rewrite Hg2, decide_False by lia. rewrite decide_True by lia.
    rewrite lookup_app_r by lia. by replace (d - length cl) with 0 by lia.
Qed.

Lemma norm_index_mono (idx : Z) (n d k : nat) :
  norm_index idx n = Some k → n ≤ d → is_Some (norm_index idx d).
Proof.
  unfold norm_index. case_decide; [|done]. intros _ Hle.
  rewrite decide_True by lia. eauto.
Qed.

(** A removal from a square matrix with a slot for every node either
    raises before touching anything, or returns with one node and one
    matrix slot fewer. *)
Lemma remove_sensor_all_or_nothing s idx d :
  square d (power_mat s) → length (nodes s) ≤ d →
  remove_sensor s idx = Raises IndexError s ∨
  ∃ s', remove_sensor s idx = Returns s' ∧
        S (length (nodes s')) = length (nodes s) ∧
        square (d - 1) (power_mat s').
Proof.
  intros Hsq Hle.
  destruct (norm_index idx (length (nodes s))) as [kn|] eqn:Hkn.
  - right. destruct (norm_index_mono _ _ d _ Hkn Hle) as [km Hkm].
    destruct (remove_sensor_spec s idx d kn km Hsq Hkn Hkm)
      as (m' & -> & Hsq' & _).
    eexists; split; [done|]. cbn. split; [|done].
    apply norm_index_Some_lt in Hkn.
    rewrite length_delete by (by apply lookup_lt_is_Some_2). lia.
  - left. unfold remove_sensor, list_del. by rewrite Hkn.
Qed.

Lemma reachable_dim s :
  reachable s →
  ∃ d, square d (power_mat s) ∧
       length (nodes s) ≤ d ∧ d ≤ S (length (nodes s)).
Proof.
  induction 1 as [ns rho alpha b1 b2 cr wcv base maxc minc
                 |s node Hs (d & Hsq & Hlo & Hhi)
                 |s idx Hs (d & Hsq & Hlo & Hhi)].
  - destruct (init_spec ns rho alpha b1 b2 cr wcv base maxc minc)
      as (m & -> & Hsq & _).
    exists (length ns + 1). cbn. split; [done|lia].
  - destruct (decide (d = length (nodes s))) as [Hd|Hd].
    + destruct (add_sensor_match s node d Hsq Hd) as (m' & -> & Hsq' & _).
      exists (S d). cbn. rewrite length_app. cbn. split; [done|lia].
    + rewrite (add_sensor_mismatch s node d Hsq Hd).
      exists d. cbn. rewrite length_app. cbn. split; [done|lia].
  - destruct (remove_sensor_all_or_nothing s idx d Hsq Hlo)
      as [->|(s' & -> & Hlen & Hsq')].
    + exists d. by cbn.
    + exists (d - 1). cbn. split; [done|lia].
Qed.

End AddFacts.

(** ** When the full build returns *)

Section BuildMore.
Context {F : Type} `{Float F}.
Implicit Types (s : WSN F) (m : ndarray F) (ps : list (nat * nat)).

Lemma setitem_out_of_bounds d m i j (v : F) :
  square d m → ¬ (i < d ∧ j < d) → setitem m i j v = None.
Proof.
  intros (Hwf & Hr & Hc) Hout. unfold setitem.
  destruct (rows m !! i) as [row|] eqn:Hrow; [|done].
  pose proof (lookup_lt_Some _ _ _ Hrow) as Hi.
  pose proof (proj1 (Forall_lookup _ _) Hwf i row Hrow) as Hlen.
  cbn in Hlen. unfold nrows in Hr. by rewrite decide_False by lia.
Qed.

(** One pair outside the matrix makes the loop raise; the writes made
    before keep the shape. *)
Lemma build_loop_raises s ps m d :
  square d m → Exists (λ p, ¬ (p.1 < d ∧ p.2 < d)) ps →
  ∃ m', build_loop s ps m = Raises IndexError m' ∧ square d m'.
Proof.
  intros Hsq Hex. revert m Hsq.
  induction ps as [|[i j] ps IH]; intros m Hsq; [by inversion Hex|].
  cbn [build_loop]. destruct (decide (i < d ∧ j < d)) as [[Hi Hj]|Hout].
  - destruct (setitem_square d m i j (pair_coeff s i j))
      as (m1 & -> & Hsq1); [done..|].
    destruct (setitem_square d m1 j i (pair_coeff s i j))
      as (m2 & -> & Hsq2); [done..|].
    apply IH; [|done]. inversion Hex as [? ? Hbad|]; [|done].
    cbn in Hbad. tauto.
  - rewrite (setitem_out_of_bounds d m i j _ Hsq Hout). eauto.
Qed.

Lemma build_pairs_nil s : nodes s = [] → build_pairs s = [].
Proof. unfold build_pairs, x_data. by intros ->. Qed.

Lemma build_power_matrix_returns_cases s d :
  square d (power_mat s) →
  if decide (nodes s = [] ∨ length (nodes s) < d)
  then ∃ m', build_power_matrix s = Returns (set_power_mat s m') ∧
             square d m'
  else ∃ m', build_power_matrix s = Raises IndexError (set_power_mat s m') ∧
             square d m'.
Proof.
  intros Hsq. unfold build_power_matrix. case_decide as Hcase.
  - destruct (build_loop_returns s (build_pairs s) (power_mat s) d Hsq)
      as (m' & -> & Hsq'); [|eauto].
    destruct Hcase as [Hnil|Hlt].
    + rewrite (build_pairs_nil s Hnil). constructor.
    + unfold build_pairs. rewrite length_x_data.
      eapply Forall_impl; [apply combinations2_seq_lt|]. cbn. lia.
  - destruct (build_loop_raises s (build_pairs s) (power_mat s) d Hsq)
      as (m' & -> & Hsq'); [|eauto].
    apply Exists_exists. exists (0, length (nodes s)). split; [|cbn; lia].
    unfold build_pairs. rewrite length_x_data.
    apply elem_of_combinations2_seq.
    destruct (nodes s) as [|nd ns]; [tauto|]. cbn. lia.
Qed.

(** ** Every pair is visited once *)

Lemma elem_of_combinations2_fst {A : Type} (l : list A) (a b : A) :
  (a, b) ∈ combinations2 l → a ∈ l.
Proof.
  induction l as [|c l IH]; cbn; [by rewrite elem_of_nil|].
  rewrite elem_of_app, list_elem_of_fmap, elem_of_cons.
  intros [(b' & [= -> ->] & _)|Hin]; auto.
Qed.

Lemma NoDup_combinations2 {A : Type} (l : list A) :
  NoDup l → NoDup (combinations2 l).
Proof.
  induction 1 as [|a l Hnotin Hnd IH]; cbn; [constructor|].
  apply NoDup_app. split; [|split; [|done]].
  - apply NoDup_fmap_2; [|done]. by intros b b' [= ->].
  - intros [a' b] (b' & [= -> ->] & _)%list_elem_of_fmap Hin.
    by apply elem_of_combinations2_fst in Hin.
Qed.

Lemma length_combinations2 {A : Type} (l : list A) :
  2 * length (combinations2 l) = length l * (length l - 1).
Proof.
  induction l as [|a l IH]; cbn [combinations2 length]; [done|].
  rewrite length_app, length_fmap. nia.
Qed.

End BuildMore.

(** ** Further properties of the operations *)

Section MoreOperations.
Context {F : Type} `{Float F}.
Implicit Types (s : WSN F) (m : ndarray F).

(** X1. In every state reachable through the constructor, [add_sensor]
    and [remove_sensor] the matrix is square, and its dimension is either
    [len(nodes)] or [len(nodes) + 1]: the node list and the matrix are
    never more than one slot apart. *)
Theorem reachable_dimension s :
  reachable s →
  ∃ d, square d (power_mat s) ∧
       (d = length (nodes s) ∨ d = length (nodes s) + 1).
Proof.
  intros Hs. destruct (reachable_dim s Hs) as (d & Hsq & Hlo & Hhi).
  exists d. split; [done|lia].
Qed.




(** X6. In every reachable state [remove_sensor] is all or nothing: it
    either raises [IndexError] and leaves the object exactly as it was,
    or returns with one node and one matrix row and column fewer. *)
Theorem remove_sensor_reachable_all_or_nothing s (idx : Z) :
  reachable s →
  remove_sensor s idx = Raises IndexError s ∨
  ∃ s', remove_sensor s idx = Returns s' ∧
        S (length (nodes s')) = length (nodes s) ∧
        S (nrows (power_mat s')) = nrows (power_mat s) ∧
        S (ncols (power_mat s')) = ncols (power_mat s).
Proof.
  intros Hs. destruct (reachable_dim s Hs) as (d & Hsq & Hlo & Hhi).
  destruct (remove_sensor_all_or_nothing s idx d Hsq Hlo)
    as [?|(s' & Hrem & Hlen & Hsq')]; [by left|right].
  exists s'. destruct Hsq as (_ & Hr & Hc), Hsq' as (_ & Hr' & Hc').
  repeat split; [done..|lia|lia].
Qed.

(** X7. On a square matrix of dimension [d], [build_power_matrix]
    returns exactly when there are no nodes or [d > len(nodes)];
    otherwise it raises [IndexError]. The node sequence is untouched
    either way. *)
Theorem build_power_matrix_returns_iff s (d : nat) :
  square d (power_mat s) →
  (returns (build_power_matrix s) = true
   ↔ nodes s = [] ∨ length (nodes s) < d) ∧
  (returns (build_power_matrix s) = false →
   ∃ m', build_power_matrix s = Raises IndexError (set_power_mat s m')) ∧
  nodes (state_of (build_power_matrix s)) = nodes s.
Proof.
  intros Hsq. pose proof (build_power_matrix_returns_cases s d Hsq) as Hc.
  case_decide as Hcase; destruct Hc as (m' & Hb & _); rewrite Hb; cbn.
  - split; [by split|]. split; [by intros [=]|done].
  - split; [split; [by intros [=]|tauto]|]. split; [eauto|done].
Qed.

(** X8. Whatever a matrix of dimension [len(nodes) + 1] holds,
    [build_power_matrix] returns and leaves it symmetric with the
    coefficient of [point_i] and [point_j] at every off-diagonal entry;
    the diagonal is left as it was. *)
Theorem build_power_matrix_repairs `{!FloatLaws F} s :
  square (S (length (nodes s))) (power_mat s) →
  ∃ m',
    build_power_matrix s = Returns (set_power_mat s m') ∧
    square (S (length (nodes s))) m' ∧
    symmetric m' ∧
    values_correct (set_power_mat s m') ∧
    ∀ a, getitem m' a a = getitem (power_mat s) a a.
Proof.
  intros Hsq.
  destruct (build_power_matrix_spec s Hsq) as (m' & Hb & Hsq' & Hw & Hd).
  exists m'. repeat (split; [done|]). split; [|split; [|done]].
  - by eapply pairs_written_symmetric.
  - by apply pairs_written_values.
Qed.

(** X9. On a network with a zero-diagonal matrix of dimension
    [len(nodes) + 1], a removal at any index the node list accepts
    followed by [build_power_matrix] leaves a matrix that is square of
    dimension [len(nodes) + 1] for the shortened node list, symmetric,
    zero on the diagonal and correct in every entry: the rebuild undoes
    the misalignment of the removal. *)
Theorem rebuild_after_remove `{!FloatLaws F} s (idx : Z) (n kn : nat) :
  length (nodes s) = n →
  square (S n) (power_mat s) →
  zero_diagonal (power_mat s) →
  norm_index idx n = Some kn →
  ∃ m1 m',
    let s1 := set_power_mat (set_nodes s (delete kn (nodes s))) m1 in
    remove_sensor s idx = Returns s1 ∧
    build_power_matrix s1 = Returns (set_power_mat s1 m') ∧
    square (S (length (nodes s1))) m' ∧
    symmetric m' ∧
    zero_diagonal m' ∧
    values_correct (set_power_mat s1 m').
Proof.
  intros Hn Hsq Hz Hkn.
  destruct (norm_index_mono idx n (S n) kn Hkn) as [km Hkm]; [lia|].
  destruct (remove_sensor_spec s idx (S n) kn km Hsq)
    as (m1 & Hrem & Hsq1 & Hg1); [by rewrite Hn|done|].
  exists m1. set (s1 := set_power_mat _ m1) in *.
  assert (S (length (nodes s1)) = S n - 1) as Hlen.
  { cbn. apply norm_index_Some_lt in Hkn.
    rewrite length_delete by (apply lookup_lt_is_Some_2; lia). lia. }
  destruct (build_power_matrix_spec s1) as (m' & Hb & Hsq' & Hw & Hd).
  { by rewrite Hlen. }
  exists m'. cbn zeta. repeat (split; [done|]). split; [|split].
  - by eapply pairs_written_symmetric.
  - intros a Ha. destruct Hsq' as (_ & Hr' & _). rewrite Hr' in Ha.
    rewrite Hd. cbn [s1 power_mat set_power_mat]. rewrite Hg1.
    apply Hz. destruct Hsq as (_ & -> & _). apply skip_lt. lia.
  - by apply pairs_written_values.
Qed.

(** X10. After [remove_sensor(idx)] with [0 <= idx < len(nodes)] on a
    network with correct values, the matrix is the correct one for the
    old point list without [point_idx] -- the base for [idx = 0], else
    [nodes[idx - 1]] -- although the node removed is [nodes[idx]]. *)
Theorem remove_sensor_shifted_values s (idx : Z) (d : nat) :
  square d (power_mat s) →
  length (nodes s) ≤ d →
  (0 ≤ idx < Z.of_nat (length (nodes s)))%Z →
  values_correct s →
  let k := Z.to_nat idx in
  ∃ m',
    remove_sensor s idx
      = Returns (set_power_mat (set_nodes s (delete k (nodes s))) m') ∧
    ∀ i j p q, i ≠ j →
      point s (skip k i) = Some p → point s (skip k j) = Some q →
      getitem m' i j = Some (point_coeff s p q).
Proof.
  intros Hsq Hle Hidx Hv k.
  destruct (remove_sensor_spec s idx d k k Hsq) as (m' & Hrem & _ & Hg).
  { by apply norm_index_nonneg. }
  { apply norm_index_nonneg. lia. }
  exists m'. split; [done|]. intros i j p q Hne Hp Hq. rewrite Hg.
  apply Hv; [|done..]. intros E. by apply skip_inj in E.
Qed.

(** X11. The build visits every index pair [i < j <= len(nodes)] and
    no other, each exactly once: [(len(nodes) + 1) * len(nodes) / 2]
    pairs in all. *)
Theorem build_pairs_once s :
  NoDup (build_pairs s) ∧
  (∀ i j, (i, j) ∈ build_pairs s ↔ i < j ∧ j ≤ length (nodes s)) ∧
  2 * length (build_pairs s) = (length (nodes s) + 1) * length (nodes s).
Proof.
  unfold build_pairs. rewrite length_x_data. split; [|split].
  - apply NoDup_combinations2, NoDup_seq.
  - intros i j. rewrite elem_of_combinations2_seq. lia.
  - rewrite length_combinations2, length_seq. lia.
Qed.


(** X13. On a network without nodes every [remove_sensor(idx)] raises
    [IndexError] and leaves the object as it was, whatever the index. *)
Theorem remove_sensor_empty s (idx : Z) :
  nodes s = [] → remove_sensor s idx = Raises IndexError s.
Proof.
  intros Hnil. unfold remove_sensor, list_del.
  rewrite norm_index_None; [done|]. rewrite Hnil. cbn. lia.
Qed.

End MoreOperations.
(** ** Runs on concrete networks *)

Local Open Scope Z_scope.

(** C1, at a failing input. After [remove_sensor(0)] on the two-node
    network the remaining node [n1] sits at matrix index 1 and the base
    at index 0, whose coefficient is 11, but [power_mat[0][1]] is 9, the
    coefficient of the removed node [n0] and [n1]: the base row and
    column were deleted instead of those of [n0]. *)
Theorem remove_sensor_breaks_values :
  let s := state_of (remove_sensor Example.net2 0) in
  reachable s ∧
  nodes s = [Example.n1] ∧
  point s 0 = Some (0, 0) ∧ point s 1 = Some (3, 4) ∧
  point_coeff s (0, 0) (3, 4) = 11 ∧
  getitem (power_mat s) 0 1 = Some 9 ∧
  ¬ values_correct s.
Proof.
  cbn zeta. split; [apply reachable_remove, reachable_init|].
  repeat split.
  intros Hv. specialize (Hv 0%nat 1%nat (0, 0) (3, 4)).
  vm_compute in Hv. by specialize (Hv ltac:(lia) eq_refl eq_refl).
Qed.

(** C3, at a failing input. On the two-node network (matrix dimension
    3) [add_sensor(n2)] raises [ValueError]; the matrix keeps dimension 3
    instead of growing to 4, and no row or column for [n2] exists. *)
Theorem add_sensor_example_raises :
  add_sensor Example.net2 Example.n2
    = Raises ValueError
        (set_nodes Example.net2 [Example.n0; Example.n1; Example.n2]) ∧
  nrows (power_mat Example.net2) = 3%nat ∧
  nrows (power_mat (state_of (add_sensor Example.net2 Example.n2))) = 3%nat ∧
  ncols (power_mat (state_of (add_sensor Example.net2 Example.n2))) = 3%nat.
Proof. repeat split. Qed.

(** C8, at a failing input. On the two-node network [add_sensor(n2)]
    raises after appending [n2]; removing the just-added sensor (sequence
    index 2) then restores the node sequence but deletes row and column 2
    of the untouched matrix, which belong to [n1]: the dimension goes
    from 3 to 2 and the coefficients of [n1] are lost. *)
Theorem add_then_remove_example :
  let o1 := add_sensor Example.net2 Example.n2 in
  let o2 := remove_sensor (state_of o1) 2 in
  returns o1 = false ∧
  returns o2 = true ∧
  nodes (state_of o2) = nodes Example.net2 ∧
  power_mat Example.net2
    = {| ncols := 3; rows := [[0; 7; 11]; [7; 0; 9]; [11; 9; 0]] |} ∧
  power_mat (state_of o2) = {| ncols := 2; rows := [[0; 7]; [7; 0]] |}.
Proof. repeat split. Qed.

(** C5, counterexample. On the one-node network [remove_sensor(-1)],
    whose index is below 0, does not raise: it returns, having removed
    the node and a row and a column of the matrix. *)
Lemma remove_sensor_negative_returns :
  -1 < 0 ∧
  remove_sensor Example.net1 (-1) ≠ Raises IndexError Example.net1 ∧
  returns (remove_sensor Example.net1 (-1)) = true ∧
  nodes Example.net1 = [Example.n0] ∧
  nodes (state_of (remove_sensor Example.net1 (-1))) = [] ∧
  power_mat Example.net1 = {| ncols := 2; rows := [[0; 7]; [7; 0]] |} ∧
  power_mat (state_of (remove_sensor Example.net1 (-1)))
    = {| ncols := 1; rows := [[0]] |}.
Proof. repeat split. done. Qed.

Lemma init_power_matrix_witness :
  FloatLaws Z ∧
  ∃ m,
    let s := {| nodes := [Example.n0; Example.n1]; rho := 0; alpha := 1;
                beta_1 := 1; beta_2 := 2; charge_rate := 0;
                wcv_x := 0; wcv_y := 0; base_x := 0; base_y := 0;
                max_charge := 10; min_charge := 1; power_mat := m |} in
    init [Example.n0; Example.n1] 0 1 1 2 0 (0, 0) (0, 0) 10 1 = Returns s ∧
    square (length [Example.n0; Example.n1] + 1) (power_mat s) ∧
    symmetric (power_mat s) ∧
    zero_diagonal (power_mat s) ∧
    values_correct s.
Proof.
  split; [exact Z_FloatLaws|].
  exact (init_power_matrix (FloatLaws0 := Z_FloatLaws)
           [Example.n0; Example.n1] 0 1 1 2 0 (0, 0) (0, 0) 10 1).
Defined.

Lemma remove_sensor_valid_index_witness :
  square 3 (power_mat Example.net2) ∧
  (length (nodes Example.net2) ≤ 3)%nat ∧
  0 ≤ 1 < Z.of_nat (length (nodes Example.net2)) ∧
  ∃ m',
    remove_sensor Example.net2 1
      = Returns (set_power_mat
                   (set_nodes Example.net2 (delete 1%nat (nodes Example.net2)))
                   m') ∧
    length (delete 1%nat (nodes Example.net2))
      = (length (nodes Example.net2) - 1)%nat ∧
    (∀ i, delete 1%nat (nodes Example.net2) !! i
          = nodes Example.net2 !! skip 1 i) ∧
    square (3 - 1) m' ∧
    ∀ i j, getitem m' i j
           = getitem (power_mat Example.net2) (skip 1 i) (skip 1 j).
Proof.
  assert (square 3 (power_mat Example.net2)) as Hsq
    by (repeat split; vm_compute; repeat constructor).
  assert (length (nodes Example.net2) ≤ 3)%nat as Hle
    by (change (length (nodes Example.net2)) with 2%nat; lia).
  assert (0 ≤ 1 < Z.of_nat (length (nodes Example.net2))) as Hidx
    by (change (length (nodes Example.net2)) with 2%nat; lia).
  repeat (split; [assumption|]).
  exact (remove_sensor_valid_index Example.net2 1 3 Hsq Hle Hidx).
Defined.

Lemma remove_sensor_index_error_witness :
  (Z.of_nat (length (nodes Example.net2)) ≤ 2
   ∨ 2 < - Z.of_nat (length (nodes Example.net2))) ∧
  remove_sensor Example.net2 2 = Raises IndexError Example.net2.
Proof.
  assert (Z.of_nat (length (nodes Example.net2)) ≤ 2
          ∨ 2 < - Z.of_nat (length (nodes Example.net2))) as Hidx
    by (change (length (nodes Example.net2)) with 2%nat; lia).
  split; [assumption|].
  exact (remove_sensor_index_error Example.net2 2 Hidx).
Defined.

Lemma reachable_symmetric_zero_diagonal_witness :
  let s := state_of (remove_sensor Example.net2 0) in
  reachable s ∧ symmetric (power_mat s) ∧ zero_diagonal (power_mat s).
Proof.
  assert (reachable (state_of (remove_sensor Example.net2 0))) as Hs
    by apply reachable_remove, reachable_init.
  split; [assumption|].
  exact (reachable_symmetric_zero_diagonal _ Hs).
Defined.


Lemma remove_sensor_negative_index_witness :
  length (nodes Example.net2) = 2%nat ∧
  (1 ≤ 2)%nat ∧
  - Z.of_nat 2 ≤ -1 ≤ -1 ∧
  square (2 + 1) (power_mat Example.net2) ∧
  let kn := Z.to_nat (Z.of_nat 2 + -1) in
  let km := Z.to_nat (Z.of_nat 2 + 1 + -1) in
  ∃ m',
    let s' := set_power_mat
                (set_nodes Example.net2 (delete kn (nodes Example.net2))) m' in
    remove_sensor Example.net2 (-1) = Returns s' ∧
    km = S kn ∧
    square 2 m' ∧
    (∀ i j, getitem m' i j
            = getitem (power_mat Example.net2) (skip km i) (skip km j)) ∧
    (∀ i, point s' i = point Example.net2 (skip km i)) ∧
    (values_correct Example.net2 → values_correct s').
Proof.
  assert (length (nodes Example.net2) = 2%nat) as Hn by reflexivity.
  assert (1 ≤ 2)%nat as Hn1 by lia.
  assert (- Z.of_nat 2 ≤ -1 ≤ -1) as Hidx by lia.
  assert (square (2 + 1) (power_mat Example.net2)) as Hsq
    by (repeat split; vm_compute; repeat constructor).
  repeat (split; [assumption|]).
  exact (remove_sensor_negative_index Example.net2 (-1) 2 Hn Hn1 Hidx Hsq).
Defined.

(** ** Runs of the further properties *)

Lemma net2_values_correct : values_correct Example.net2.
Proof.
  intros i j p q Hne Hp Hq.
  destruct i as [|[|[|i]]]; destruct j as [|[|[|j]]];
    try done; vm_compute in Hp, Hq; by simplify_eq.
Qed.

Lemma net2_zero_diagonal : zero_diagonal (power_mat Example.net2).
Proof.
  intros i Hi. change (nrows (power_mat Example.net2)) with 3%nat in Hi.
  destruct i as [|[|[|i]]]; [done..|lia].
Qed.

Lemma reachable_dimension_witness :
  reachable (state_of (add_sensor Example.net2 Example.n2)) ∧
  ∃ d, square d (power_mat (state_of (add_sensor Example.net2 Example.n2))) ∧
       (d = length (nodes (state_of (add_sensor Example.net2 Example.n2)))
        ∨ d = (length (nodes (state_of (add_sensor Example.net2 Example.n2)))
               + 1)%nat).
Proof.
  assert (reachable (state_of (add_sensor Example.net2 Example.n2))) as Hs
    by apply reachable_add, reachable_init.
  split; [assumption|].
  exact (reachable_dimension _ Hs).
Defined.



Lemma add_remove_roundtrip_witness :
  wf (power_mat (state_of (add_sensor Example.net2 Example.n2))) ∧
  add_sensor (state_of (add_sensor Example.net2 Example.n2)) Example.n1
    = Returns (state_of (add_sensor
                           (state_of (add_sensor Example.net2 Example.n2))
                           Example.n1)) ∧
  nrows (power_mat (state_of (add_sensor Example.net2 Example.n2)))
    = length (nodes (state_of (add_sensor Example.net2 Example.n2))) ∧
  ncols (power_mat (state_of (add_sensor Example.net2 Example.n2)))
    = length (nodes (state_of (add_sensor Example.net2 Example.n2))) ∧
  nrows (power_mat (state_of (add_sensor
                                (state_of (add_sensor Example.net2 Example.n2))
                                Example.n1)))
    = S (length (nodes (state_of (add_sensor Example.net2 Example.n2)))) ∧
  remove_sensor
    (state_of (add_sensor (state_of (add_sensor Example.net2 Example.n2))
                 Example.n1))
    (Z.of_nat (length (nodes (state_of (add_sensor Example.net2 Example.n2)))))
    = Returns (state_of (add_sensor Example.net2 Example.n2)).
Proof.
  assert (wf (power_mat (state_of (add_sensor Example.net2 Example.n2))))
    as Hwf by (vm_compute; repeat constructor).
  assert (add_sensor (state_of (add_sensor Example.net2 Example.n2)) Example.n1
          = Returns (state_of (add_sensor
                                 (state_of (add_sensor Example.net2 Example.n2))
                                 Example.n1))) as Hadd by reflexivity.
  split; [assumption|]. split; [assumption|].
  exact (add_remove_roundtrip _ Example.n1 _ Hwf Hadd).
Defined.


Lemma remove_sensor_reachable_all_or_nothing_witness :
  reachable Example.net2 ∧
  (remove_sensor Example.net2 0 = Raises IndexError Example.net2 ∨
   ∃ s', remove_sensor Example.net2 0 = Returns s' ∧
         S (length (nodes s')) = length (nodes Example.net2) ∧
         S (nrows (power_mat s')) = nrows (power_mat Example.net2) ∧
         S (ncols (power_mat s')) = ncols (power_mat Example.net2)).
Proof.
  assert (reachable Example.net2) as Hs by apply reachable_init.
  split; [assumption|].
  exact (remove_sensor_reachable_all_or_nothing Example.net2 0 Hs).
Defined.

Lemma build_power_matrix_returns_iff_witness :
  square 3 (power_mat Example.net2) ∧
  (returns (build_power_matrix Example.net2) = true
   ↔ nodes Example.net2 = [] ∨ (length (nodes Example.net2) < 3)%nat) ∧
  (returns (build_power_matrix Example.net2) = false →
   ∃ m', build_power_matrix Example.net2
         = Raises IndexError (set_power_mat Example.net2 m')) ∧
  nodes (state_of (build_power_matrix Example.net2)) = nodes Example.net2.
Proof.
  assert (square 3 (power_mat Example.net2)) as Hsq
    by (repeat split; vm_compute; repeat constructor).
  split; [assumption|].
  exact (build_power_matrix_returns_iff Example.net2 3 Hsq).
Defined.

Lemma build_power_matrix_repairs_witness :
  FloatLaws Z ∧
  square (S (length (nodes Example.net2))) (power_mat Example.net2) ∧
  ∃ m',
    build_power_matrix Example.net2
      = Returns (set_power_mat Example.net2 m') ∧
    square (S (length (nodes Example.net2))) m' ∧
    symmetric m' ∧
    values_correct (set_power_mat Example.net2 m') ∧
    ∀ a, getitem m' a a = getitem (power_mat Example.net2) a a.
Proof.
  assert (square (S (length (nodes Example.net2))) (power_mat Example.net2))
    as Hsq by (repeat split; vm_compute; repeat constructor).
  split; [exact Z_FloatLaws|]. split; [assumption|].
  exact (build_power_matrix_repairs (FloatLaws0 := Z_FloatLaws)
           Example.net2 Hsq).
Defined.

Lemma rebuild_after_remove_witness :
  FloatLaws Z ∧
  length (nodes Example.net2) = 2%nat ∧
  square 3 (power_mat Example.net2) ∧
  zero_diagonal (power_mat Example.net2) ∧
  norm_index 0 2 = Some 0%nat ∧
  ∃ m1 m',
    let s1 := set_power_mat
                (set_nodes Example.net2 (delete 0%nat (nodes Example.net2)))
                m1 in
    remove_sensor Example.net2 0 = Returns s1 ∧
    build_power_matrix s1 = Returns (set_power_mat s1 m') ∧
    square (S (length (nodes s1))) m' ∧
    symmetric m' ∧
    zero_diagonal m' ∧
    values_correct (set_power_mat s1 m').
Proof.
  assert (length (nodes Example.net2) = 2%nat) as Hn by reflexivity.
  assert (square 3 (power_mat Example.net2)) as Hsq
    by (repeat split; vm_compute; repeat constructor).
  assert (zero_diagonal (power_mat Example.net2)) as Hz
    by exact net2_zero_diagonal.
  assert (norm_index 0 2 = Some 0%nat) as Hk by reflexivity.
  split; [exact Z_FloatLaws|]. repeat (split; [assumption|]).
  exact (rebuild_after_remove (FloatLaws0 := Z_FloatLaws)
           Example.net2 0 2 0 Hn Hsq Hz Hk).
Defined.

Lemma remove_sensor_shifted_values_witness :
  square 3 (power_mat Example.net2) ∧
  (length (nodes Example.net2) ≤ 3)%nat ∧
  0 ≤ 0 < Z.of_nat (length (nodes Example.net2)) ∧
  values_correct Example.net2 ∧
  ∃ m',
    remove_sensor Example.net2 0
      = Returns (set_power_mat
                   (set_nodes Example.net2
                      (delete (Z.to_nat 0) (nodes Example.net2))) m') ∧
    ∀ i j p q, i ≠ j →
      point Example.net2 (skip (Z.to_nat 0) i) = Some p →
      point Example.net2 (skip (Z.to_nat 0) j) = Some q →
      getitem m' i j = Some (point_coeff Example.net2 p q).
Proof.
  assert (square 3 (power_mat Example.net2)) as Hsq
    by (repeat split; vm_compute; repeat constructor).
  assert (length (nodes Example.net2) ≤ 3)%nat as Hle
    by (change (length (nodes Example.net2)) with 2%nat; lia).
  assert (0 ≤ 0 < Z.of_nat (length (nodes Example.net2))) as Hidx
    by (change (length (nodes Example.net2)) with 2%nat; lia).
  assert (values_correct Example.net2) as Hv by exact net2_values_correct.
  repeat (split; [assumption|]).
  exact (remove_sensor_shifted_values Example.net2 0 3 Hsq Hle Hidx Hv).
Defined.


Lemma remove_sensor_empty_witness :
  nodes (state_of (remove_sensor Example.net1 0)) = [] ∧
  remove_sensor (state_of (remove_sensor Example.net1 0)) 5
    = Raises IndexError (state_of (remove_sensor Example.net1 0)).
Proof.
  assert (nodes (state_of (remove_sensor Example.net1 0)) = []) as Hnil
    by reflexivity.
  split; [assumption|].
  exact (remove_sensor_empty _ 5 Hnil).
Defined.

(** C10, counterexample. The state left by the raised [add_sensor(n2)]
    on the two-node network is reachable and has [n = 3] nodes with a
    matrix of dimension 3, not [n + 1].  There [remove_sensor(-1)]
    returns and removes [nodes[2]], but the matrix slot it deletes is
    [n + idx = 2], the slot of [n1]; position [n + 1 + idx = 3] is not in
    the matrix.  The remaining node [n1], which is [point_2], is left
    without a row and a column, although the old matrix had its
    coefficient with the base at [[0][2]]. *)
Lemma remove_sensor_negative_wrong_slot :
  reachable (state_of (add_sensor Example.net2 Example.n2)) ∧
  nodes (state_of (add_sensor Example.net2 Example.n2))
    = [Example.n0; Example.n1; Example.n2] ∧
  -3 ≤ -1 ≤ -1 ∧
  power_mat (state_of (add_sensor Example.net2 Example.n2))
    = {| ncols := 3; rows := [[0; 7; 11]; [7; 0; 9]; [11; 9; 0]] |} ∧
  returns (remove_sensor (state_of (add_sensor Example.net2 Example.n2)) (-1))
    = true ∧
  nodes (state_of (remove_sensor
                     (state_of (add_sensor Example.net2 Example.n2)) (-1)))
    = [Example.n0; Example.n1] ∧
  power_mat (state_of (remove_sensor
                         (state_of (add_sensor Example.net2 Example.n2)) (-1)))
    = {| ncols := 2; rows := [[0; 7]; [7; 0]] |} ∧
  point (state_of (remove_sensor
                     (state_of (add_sensor Example.net2 Example.n2)) (-1))) 2
    = Some (3, 4) ∧
  getitem (power_mat (state_of (remove_sensor
                                  (state_of (add_sensor Example.net2 Example.n2))
                                  (-1)))) 0 2
    = None ∧
  getitem (power_mat (state_of (add_sensor Example.net2 Example.n2)))
    (skip 3 0) (skip 3 2)
    = Some 11 ∧
  ¬ values_correct
      (state_of (remove_sensor
                   (state_of (add_sensor Example.net2 Example.n2)) (-1))).
Proof.
  split; [apply reachable_add, reachable_init|].
  repeat (split; [done|]).
  intros Hv. specialize (Hv 0%nat 2%nat (0, 0) (3, 4)).
  vm_compute in Hv. by specialize (Hv ltac:(lia) eq_refl eq_refl).
Qed.
